(** * Post-Earnings Drift Analyzer: shallow embedding of [src/main.py]

    The analysis handler of [main.py] (the body of [if st.button("Analyze")])
    is modelled as functions over lists: the earnings table and the price
    history are lists of rows, the loop over the earnings index threads the
    [data] list explicitly, and the pandas/numpy calls the handler makes
    ([Series.corr], [np.sign], [Series.mean], [round] on [np.float64]) are
    written out with the semantics of those libraries.

    Numbers.  The price columns of [stock.history] are [float64], so every
    value the handler computes is an [np.float64].  We model a float64 as
    [num]: a finite value, carried exactly as a rational, or one of the three
    IEEE special values.  Arithmetic on finite values is exact (the rounding
    error of each finite float operation is not modelled), while the IEEE
    rules for infinities and NaN are kept: in particular numpy division by
    zero does not raise, it returns [inf], [-inf] or [nan].  Signed zeros are
    not distinguished (every zero is [+0.0]).

    Dates.  After [tz_localize(None)] both indices are naive timestamps; we
    model a timestamp as a number of seconds ([Z]) and [Timestamp.date()] as
    the floor division by the length of a day. *)

From Stdlib Require Import ZArith QArith Qround List Bool Sorted Permutation Lia Lqa.
Import ListNotations.

(** ** float64 values *)

Module Num.

Inductive num : Type :=
| Fin (q : Q)
| PInf
| NInf
| NaN.

Definition Qltb (a b : Q) : bool := negb (Qle_bool b a).

Definition is_nan (x : num) : bool :=
  match x with NaN => true | _ => false end.

Definition is_finite (x : num) : bool :=
  match x with Fin _ => true | _ => false end.

Definition is_inf (x : num) : Prop := x = PInf \/ x = NInf.

(** IEEE sign of a non-zero, non-NaN value: [Some true] for positive. *)
Definition signb (x : num) : option bool :=
  match x with
  | Fin a => if Qeq_bool a 0 then None else Some (Qltb 0 a)
  | PInf => Some true
  | NInf => Some false
  | NaN => None
  end.

Definition inf_of (positive : bool) : num := if positive then PInf else NInf.

Definition fneg (x : num) : num :=
  match x with
  | Fin a => Fin (- a)
  | PInf => NInf
  | NInf => PInf
  | NaN => NaN
  end.

(** [x + y] *)
Definition fadd (x y : num) : num :=
  match x, y with
  | NaN, _ | _, NaN => NaN
  | Fin a, Fin b => Fin (a + b)
  | PInf, NInf | NInf, PInf => NaN
  | PInf, _ | _, PInf => PInf
  | NInf, _ | _, NInf => NInf
  end.

(** [x - y] *)
Definition fsub (x y : num) : num := fadd x (fneg y).

(** [x * y]; [0 * inf] is NaN. *)
Definition fmul (x y : num) : num :=
  match x, y with
  | NaN, _ | _, NaN => NaN
  | Fin a, Fin b => Fin (a * b)
  | _, _ =>
      match signb x, signb y with
      | Some sx, Some sy => inf_of (Bool.eqb sx sy)
      | _, _ => NaN
      end
  end.

(** [x / y] with numpy semantics: no exception on a zero divisor. *)
Definition fdiv (x y : num) : num :=
  match x, y with
  | NaN, _ | _, NaN => NaN
  | Fin a, Fin b =>
      if Qeq_bool b 0 then
        match signb x with Some sx => inf_of sx | None => NaN end
      else Fin (a / b)
  | Fin _, _ => Fin 0
  | _, Fin b =>
      match signb x, signb y with
      | Some sx, Some sy => inf_of (Bool.eqb sx sy)
      | Some sx, None => inf_of sx
      | _, _ => NaN
      end
  | _, _ => NaN
  end.

(** Python comparisons: every comparison with NaN is [False]. *)
Definition feq (x y : num) : bool :=
  match x, y with
  | Fin a, Fin b => Qeq_bool a b
  | PInf, PInf | NInf, NInf => true
  | _, _ => false
  end.

Definition fneq (x y : num) : bool := negb (feq x y).

Definition fgt (x y : num) : bool :=
  match x, y with
  | Fin a, Fin b => Qltb b a
  | PInf, Fin _ | PInf, NInf | Fin _, NInf => true
  | _, _ => false
  end.

(** [np.sign] *)
Definition np_sign (x : num) : num :=
  match x with
  | Fin a => if Qeq_bool a 0 then Fin 0 else if Qltb 0 a then Fin 1 else Fin (-1)
  | PInf => Fin 1
  | NInf => Fin (-1)
  | NaN => NaN
  end.

(** [np.rint] on a rational: round half to even. *)
Definition rint (q : Q) : Z :=
  let f := Qfloor q in
  let r := q - inject_Z f in
  if Qltb r (1 # 2) then f
  else if Qltb (1 # 2) r then (f + 1)%Z
  else if Z.even f then f else (f + 1)%Z.

Definition frint (x : num) : num :=
  match x with
  | Fin a => Fin (inject_Z (rint a))
  | y => y
  end.

(** [round(x, 2)] for an [np.float64] [x]: numpy's [around], which
    multiplies by [10**2], rounds half to even and divides back.  The
    product [x * 100] is exact here, while numpy rounds it to a float64
    first; the two differ only when that product lies within one float64
    rounding step of a half-integer (a tie), so no property below depends on
    a value at such a tie. *)
Definition round2 (x : num) : num :=
  fdiv (frint (fmul x (Fin 100))) (Fin 100).

Definition of_nat (n : nat) : num := Fin (inject_Z (Z.of_nat n)).

(** Equality of float64 values up to the representation of rationals. *)
Definition neqv (x y : num) : Prop :=
  match x, y with
  | Fin a, Fin b => a == b
  | PInf, PInf | NInf, NInf | NaN, NaN => True
  | _, _ => False
  end.

End Num.

(** ** Rows of the two tables *)

Module Model.
Import Num.

(** A row of [stock.history(period="10y")], indexed by its timestamp;
    only [Open] and [Close] are read by the handler. *)
Record bar : Type := mkBar {
  b_date : Z;
  b_open : Q;
  b_close : Q
}.

(** A row of [stock.earnings_dates]; [e_eps = None] is a missing
    [Reported EPS]. *)
Record earnings_row : Type := mkEarnings {
  e_date : Z;
  e_eps : option Q
}.

(** Line 34: [earnings['Reported EPS'].notna()]. *)
Definition has_eps (e : earnings_row) : bool :=
  match e_eps e with Some _ => true | None => false end.

(** A row of [data] (line 76): the dict appended for one earnings date. *)
Record observation : Type := mkObs {
  o_earnings : Z;   (* 'Earnings Date' *)
  o_pre : Z;        (* 'Pre-Earnings Date' *)
  o_post : Z;       (* 'Post-Earnings Date' *)
  o_gap : num;      (* 'Gap %' *)
  o_intraday : num  (* 'Intraday %' *)
}.

Definition day_len : Z := 86400.

(** [Timestamp.date()] *)
Definition date_of (t : Z) : Z := t / day_len.

(** [hist.index] *)
Definition index (hist : list bar) : list Z := map b_date hist.

(** [hist.loc[d]] on the (unique) date index; a missing key is a
    [KeyError], modelled as [None]. *)
Definition loc (hist : list bar) (d : Z) : option bar :=
  find (fun b => Z.eqb (b_date b) d) hist.

Fixpoint last_opt {A : Type} (l : list A) : option A :=
  match l with
  | [] => None
  | [x] => Some x
  | _ :: t => last_opt t
  end.

Definition head_opt {A : Type} (l : list A) : option A :=
  match l with [] => None | x :: _ => Some x end.

(** Line 71: [((post_open - pre_close) / pre_close) * 100].  On finite
    non-zero prices the quotient is exact (float64 rounding of the finite
    operations is not modelled); on a zero [pre_close] it has numpy's
    [inf]/[nan] results. *)
Definition gap_pct (pre_close post_open : num) : num :=
  fmul (fdiv (fsub post_open pre_close) pre_close) (Fin 100).

(** Line 74: [((post_close - post_open) / post_open) * 100], modelled as
    [gap_pct]. *)
Definition intraday_pct (post_open post_close : num) : num :=
  fmul (fdiv (fsub post_close post_open) post_open) (Fin 100).

(** Lines 54-84: the body of the loop for one earnings date [ed].
    [None] is [continue], whether reached by one of the two explicit
    [continue]s or through the [except Exception] clause. *)
Definition process_event (hist : list bar) (ed : Z) : option observation :=
  let prior_dates := filter (fun d => Z.leb d ed) (index hist) in
  match last_opt prior_dates with
  | None => None
  | Some pre_date =>
      match loc hist pre_date with
      | None => None
      | Some pre_row =>
          let pre_close := Fin (b_close pre_row) in
          let next_dates := filter (fun d => Z.ltb ed d) (index hist) in
          match head_opt next_dates with
          | None => None
          | Some next_date =>
              match loc hist next_date with
              | None => None
              | Some next_row =>
                  let post_open := Fin (b_open next_row) in
                  let post_close := Fin (b_close next_row) in
                  let gap := gap_pct pre_close post_open in
                  let intraday := intraday_pct post_open post_close in
                  Some (mkObs (date_of ed) (date_of pre_date) (date_of next_date)
                              (round2 gap) (round2 intraday))
              end
          end
      end
  end.

End Model.

(** ** The two aggregates (lines 97-100) *)

Module Agg.
Import Num Model.

(** A value of [np.corrcoef(x, y)[0, 1]].  [Corr c01 c00 c11] stands for
    [c01 / sqrt(c00) / sqrt(c11)], the off-diagonal entry of the covariance
    matrix divided by the two standard deviations; it is only built with
    [c00 > 0] and [c11 > 0].  (The final [np.clip] to [[-1, 1]] does not
    change an exactly computed coefficient.) *)
Inductive corr_t : Type :=
| CorrNaN
| Corr (c01 c00 c11 : Q).

(** Left-to-right float sum. *)
Definition fsum (l : list num) : num := fold_left fadd l (Fin 0).

(** [np.average] of a row. *)
Definition fmean (l : list num) : num := fdiv (fsum l) (of_nat (length l)).

(** [X -= avg[:, None]] on one row. *)
Definition deviations (l : list num) : list num :=
  let m := fmean l in map (fun x => fsub x m) l.

(** One entry of [dot(X, X_T)]. *)
Definition fdot (xs ys : list num) : num :=
  fsum (map (fun p => fmul (fst p) (snd p)) (combine xs ys)).

(** [np.corrcoef(x, y)[0, 1]]: [np.cov] with [ddof = 1] ([fact = n - 1],
    multiplied in as [true_divide(1, fact)]), then division of the
    off-diagonal entry by the square roots of the diagonal.  When [c01] is
    finite and a diagonal entry is [0], [c01] is [0] as well and the
    quotient is [0/0].  Means and products are exact; numpy's float64 mean
    of a constant series can differ from its value in the last bit.  The
    properties below rely on this definition only for NaN propagation from
    an infinite value, for fewer than two pairs, and for the sign of the
    coefficient not depending on the order of the two series. *)
Definition corrcoef (xs ys : list num) : corr_t :=
  let dx := deviations xs in
  let dy := deviations ys in
  let fact := fsub (of_nat (length xs)) (Fin 1) in
  let scale := fdiv (Fin 1) fact in
  let c00 := fmul (fdot dx dx) scale in
  let c11 := fmul (fdot dy dy) scale in
  let c01 := fmul (fdot dx dy) scale in
  match c01, c00, c11 with
  | Fin c, Fin a, Fin b => if Qltb 0 a && Qltb 0 b then Corr c a b else CorrNaN
  | _, _, _ => CorrNaN
  end.

(** pandas [nanops.nancorr]: pairs where either side is NaN are dropped,
    fewer than [min_periods = 1] remaining pairs give NaN. *)
Definition valid_pairs (xs ys : list num) : list (num * num) :=
  filter (fun p => negb (is_nan (fst p)) && negb (is_nan (snd p))) (combine xs ys).

(** Line 97: [df['Gap %'].corr(df['Intraday %'])]. *)
Definition series_corr (xs ys : list num) : corr_t :=
  let v := valid_pairs xs ys in
  if Nat.ltb (length v) 1 then CorrNaN
  else corrcoef (map fst v) (map snd v).

(** [Series.mean()] of a boolean series: number of [True] over length. *)
Definition bool_mean (bs : list bool) : num :=
  fdiv (of_nat (length (filter (fun b => b) bs))) (of_nat (length bs)).

(** Line 98: [df[df['Gap %'] != 0]], as rows ('Gap %', 'Intraday %'). *)
Definition non_zero_rows (gaps intradays : list num) : list (num * num) :=
  filter (fun r => fneq (fst r) (Fin 0)) (combine gaps intradays).

(** Line 99: [np.sign(gap) == np.sign(intraday)] on one row. *)
Definition same_sign (r : num * num) : bool :=
  feq (np_sign (fst r)) (np_sign (snd r)).

(** Lines 99-100. *)
Definition same_direction_pct (gaps intradays : list num) : num :=
  let non_zero_df := non_zero_rows gaps intradays in
  match non_zero_df with
  | [] => Fin 0
  | _ => fmul (bool_mean (map same_sign non_zero_df)) (Fin 100)
  end.

(** Line 112: [correlation > 0] (false on NaN).  With [c00, c11 > 0] the
    coefficient has the sign of [c01]. *)
Definition corr_gt0 (c : corr_t) : bool :=
  match c with
  | CorrNaN => false
  | Corr c01 _ _ => Qltb 0 c01
  end.

(** Sign of the coefficient, [None] for NaN. *)
Definition corr_sign (c : corr_t) : option comparison :=
  match c with
  | CorrNaN => None
  | Corr c01 _ _ => Some (Qcompare c01 0)
  end.

Inductive interpretation : Type :=
| PositiveDrift          (* st.success("Positive correlation detected, ...") *)
| NoPositiveCorrelation. (* st.warning("No positive correlation found.") *)

(** Lines 112-116. *)
Definition interpret (correlation : corr_t) : interpretation :=
  if corr_gt0 correlation then PositiveDrift else NoPositiveCorrelation.

Inductive strategy : Type :=
| BuyAtOpen       (* "If the overnight gap post-earnings is positive ..." *)
| NoClearPattern. (* "- No clear drift pattern detected. ..." *)

(** Lines 121-129: [correlation > 0 and same_direction_pct > 50]. *)
Definition strategy_of (correlation : corr_t) (same_direction_pct : num) : strategy :=
  if corr_gt0 correlation && fgt same_direction_pct (Fin 50) then BuyAtOpen
  else NoClearPattern.

(** Two results of [np.corrcoef] denote the same coefficient: both NaN, or
    [c / sqrt(a * b)] equal, i.e. the same [c] and the same product [a * b]. *)
Definition corr_eqv (c c' : corr_t) : Prop :=
  match c, c' with
  | CorrNaN, CorrNaN => True
  | Corr x a b, Corr x' a' b' => x == x' /\ a * b == a' * b'
  | _, _ => False
  end.

End Agg.

(** ** The handler (lines 25-100) *)

Module Pipeline.
Import Num Model Agg.

Inductive failure : Type :=
| NoEarningsData           (* line 30 *)
| NoReportedEps            (* line 36 *)
| NoHistoryData            (* line 42 *)
| InsufficientAlignedData. (* line 90 *)

Record analysis_result : Type := mkResult {
  r_obs : list observation;  (* df *)
  r_corr : corr_t;           (* correlation *)
  r_same : num               (* same_direction_pct *)
}.

(** The handler's mutable state is the list [data]; a state monad threads it. *)
Definition state := list observation.
Definition M (A : Type) : Type := state -> A * state.
Definition ret {A : Type} (a : A) : M A := fun s => (a, s).
Definition bind {A B : Type} (m : M A) (k : A -> M B) : M B :=
  fun s => let (a, s') := m s in k a s'.
Local Notation "x <- m ;; k" := (bind m (fun x => k)) (at level 61, m at next level, right associativity).
Definition get : M state := fun s => (s, s).
Definition put (s : state) : M unit := fun _ => (tt, s).
(** [data.append(o)] *)
Definition append (o : observation) : M unit := fun s => (tt, s ++ [o]).

(** Lines 53-84: [for ed in earnings.index]. *)
Fixpoint loop (hist : list bar) (eds : list Z) : M unit :=
  match eds with
  | [] => ret tt
  | ed :: rest =>
      match process_event hist ed with
      | Some o => _ <- append o ;; loop hist rest
      | None => loop hist rest
      end
  end.

Definition analyze_run (earnings : list earnings_row) (hist : list bar)
  : M (failure + analysis_result) :=
  match earnings with
  | [] => ret (inl NoEarningsData)
  | _ =>
      let earnings := filter has_eps earnings in
      match earnings with
      | [] => ret (inl NoReportedEps)
      | _ =>
          match hist with
          | [] => ret (inl NoHistoryData)
          | _ =>
              _ <- put [] ;;
              _ <- loop hist (map e_date earnings) ;;
              data <- get ;;
              match data with
              | [] => ret (inl InsufficientAlignedData)
              | _ =>
                  let gaps := map o_gap data in
                  let intradays := map o_intraday data in
                  ret (inr (mkResult data (series_corr gaps intradays)
                                     (same_direction_pct gaps intradays)))
              end
          end
      end
  end.

(** One press of the button, started from an empty [data]. *)
Definition analyze (earnings : list earnings_row) (hist : list bar) : failure + analysis_result :=
  fst (analyze_run earnings hist []).

(** The observations the loop collects for a list of earnings dates. *)
Definition observations (hist : list bar) (eds : list Z) : list observation :=
  snd (loop hist eds []).

End Pipeline.

(** ** Concrete inputs *)

Module Scenarios.
Import Num Model.

(** Midnight timestamps of 2024-01-01 .. 2024-01-04. *)
Definition jan1 : Z := 19723 * day_len.
Definition jan2 : Z := 19724 * day_len.
Definition jan3 : Z := 19725 * day_len.
Definition jan4 : Z := 19726 * day_len.

(** The bars of the worked example: (1/1, 100, 102), (1/2, 103, 101),
    (1/3, 99, 105). *)
Definition example_bars : list bar :=
  [mkBar jan1 100 102; mkBar jan2 103 101; mkBar jan3 99 105].

(** The same session as the example, with a zero close on 1/1. *)
Definition zero_close_bars : list bar :=
  [mkBar jan1 100 0; mkBar jan2 103 101; mkBar jan3 99 105].

(** A gap of 0.004% (rounded to 0.00) followed by a rise of about 1%. *)
Definition small_gap_bars : list bar :=
  [mkBar jan1 1000 1000; mkBar jan2 (100004 # 100) 1010].


Definition reported (d : Z) : earnings_row := mkEarnings d (Some 1).

(** Two events: an up gap followed by a rise, then a down gap followed by a fall. *)
Definition trend_bars : list bar :=
  [mkBar jan1 100 100; mkBar jan2 110 121; mkBar jan3 100 90].

End Scenarios.

(** ** Exact sums

    The sums [corrcoef] computes on finite values, over rationals: means,
    deviations from the mean and dot products. *)

Module Pearson.
Import Num Agg.

Definition qsum (l : list Q) : Q := fold_left Qplus l 0.
Definition qmean (l : list Q) : Q := qsum l / inject_Z (Z.of_nat (length l)).
Definition qdev (l : list Q) : list Q := map (fun x => x + - qmean l) l.
Definition qdot (xs ys : list Q) : Q := qsum (map (fun p => fst p * snd p) (combine xs ys)).


End Pearson.

(** * Properties *)

Import Num Model Agg Pipeline Scenarios Pearson.

(** ** Float-model facts *)

Lemma Qltb_true (a b : Q) : Qltb a b = true <-> a < b.
Proof.
  unfold Qltb. rewrite negb_true_iff.
  split; intro H.
  - apply Qnot_le_lt. intro Hle. apply Qle_bool_iff in Hle. congruence.
  - destruct (Qle_bool b a) eqn:E; [|reflexivity].
    apply Qle_bool_iff in E. exfalso. apply (Qlt_not_le _ _ H E).
Qed.

Lemma Qltb_false (a b : Q) : Qltb a b = false <-> b <= a.
Proof.
  unfold Qltb. rewrite negb_false_iff. apply Qle_bool_iff.
Qed.

Lemma np_sign_fin_nonzero (a : Q) :
  ~ a == 0 -> np_sign (Fin a) = Fin 1 \/ np_sign (Fin a) = Fin (-1).
Proof.
  intro Ha. unfold np_sign.
  destruct (Qeq_bool a 0) eqn:E.
  - apply Qeq_bool_iff in E. contradiction.
  - destruct (Qltb 0 a); auto.
Qed.

Lemma feq_sign_zero (g : num) :
  fneq g (Fin 0) = true -> feq (np_sign g) (np_sign (Fin 0)) = false.
Proof.
  destruct g as [a| | |]; intro H; try reflexivity.
  unfold fneq, feq in H. apply negb_true_iff in H.
  assert (Ha : ~ a == 0) by (intro Ha; apply Qeq_bool_iff in Ha; congruence).
  destruct (np_sign_fin_nonzero a Ha) as [E | E]; rewrite E; reflexivity.
Qed.

(** ** C6: the worked example *)

(** C6.  On the bars (1/1, 100, 102), (1/2, 103, 101), (1/3, 99, 105) and
    the earnings date 1/1, the pre-earnings bar is 1/1 (close 102), the
    post-earnings bar is 1/2 (open 103, close 101), and the observation
    carries [gapPct = (103 - 102) / 102 * 100], rounded to 0.98, and
    [intradayPct = (101 - 103) / 103 * 100], rounded to -1.94. *)
Theorem example_scenario_metrics :
  last_opt (filter (fun d => Z.leb d jan1) (index example_bars)) = Some jan1 /\
  loc example_bars jan1 = Some (mkBar jan1 100 102) /\
  head_opt (filter (fun d => Z.ltb jan1 d) (index example_bars)) = Some jan2 /\
  loc example_bars jan2 = Some (mkBar jan2 103 101) /\
  gap_pct (Fin 102) (Fin 103) = Fin ((103 - 102) / 102 * 100) /\
  intraday_pct (Fin 103) (Fin 101) = Fin ((101 - 103) / 103 * 100) /\
  process_event example_bars jan1 =
    Some (mkObs (date_of jan1) (date_of jan1) (date_of jan2)
                (round2 (gap_pct (Fin 102) (Fin 103)))
                (round2 (intraday_pct (Fin 103) (Fin 101)))) /\
  round2 (gap_pct (Fin 102) (Fin 103)) = Fin (98 # 100) /\
  round2 (intraday_pct (Fin 103) (Fin 101)) = Fin (-194 # 100).
Proof.
  repeat split; vm_compute; reflexivity.
Qed.

(** ** C8: the interpretation branch *)

(** C8.  The interpretation has two branches keyed on [correlation > 0]:
    it is the positive-drift message exactly when the coefficient is
    positive, so a coefficient of exactly 0, a negative one, or NaN gives
    "No positive correlation found". *)
Theorem interpret_nonpositive (c : corr_t) :
  (interpret c = PositiveDrift <-> corr_sign c = Some Gt) /\
  (corr_sign c = Some Eq -> interpret c = NoPositiveCorrelation) /\
  (corr_sign c = Some Lt -> interpret c = NoPositiveCorrelation) /\
  (corr_sign c = None -> interpret c = NoPositiveCorrelation) /\
  (forall a b, interpret (Corr 0 a b) = NoPositiveCorrelation).
Proof.
  assert (Hgt : forall c01, Qltb 0 c01 = true <-> (c01 ?= 0) = Gt).
  { intro c01. rewrite Qltb_true. rewrite <- Qgt_alt. reflexivity. }
  destruct c as [|c01 c00 c11]; unfold interpret, corr_gt0, corr_sign.
  - repeat split; try discriminate; reflexivity.
  - repeat split.
    + intro H. destruct (Qltb 0 c01) eqn:E; [|discriminate].
      apply Hgt in E. rewrite E. reflexivity.
    + intro H. injection H as H. apply Hgt in H. rewrite H. reflexivity.
    + intro H. injection H as H. destruct (Qltb 0 c01) eqn:E; [|reflexivity].
      apply Hgt in E. congruence.
    + intro H. injection H as H. destruct (Qltb 0 c01) eqn:E; [|reflexivity].
      apply Hgt in E. congruence.
    + discriminate.
Qed.

(** ** C9: no state carried between runs *)

(** C9.  The result of a run does not depend on the contents of [data]
    before the run, and running the analysis a second time on the state
    the first run left gives the same result. *)
Theorem analyze_run_deterministic (earnings : list earnings_row) (hist : list bar)
  (s1 s2 : state) :
  fst (analyze_run earnings hist s1) = fst (analyze_run earnings hist s2) /\
  fst (analyze_run earnings hist (snd (analyze_run earnings hist s1))) =
    analyze earnings hist.
Proof.
  assert (H : forall s, fst (analyze_run earnings hist s) = analyze earnings hist).
  { intro s. unfold analyze, analyze_run.
    destruct earnings as [|e es]; [reflexivity|].
    destruct (filter _ (e :: es)); [reflexivity|].
    destruct hist; reflexivity. }
  rewrite !H. split; reflexivity.
Qed.

(** ** C10 and C3: the same-direction ratio *)

Lemma in_combine_map {A B C : Type} (f : A -> B) (g : A -> C) (l : list A) (x : A) :
  In x l -> In (f x, g x) (combine (map f l) (map g l)).
Proof.
  induction l as [|y l IH]; simpl; [tauto|].
  intros [-> | H]; [left; reflexivity | right; auto].
Qed.

Lemma np_sign_feq_zero (x : num) : feq x (Fin 0) = true -> np_sign x = Fin 0.
Proof.
  destruct x as [a| | |]; simpl; try discriminate.
  intro H. rewrite H. reflexivity.
Qed.

(** C10.  An observation whose gapPct is non-zero and whose intradayPct is
    0 is kept in the non-zero-gap rows (the denominator of the ratio) and
    counted there as not same-direction. *)
Theorem zero_intraday_counted_against (data : list observation) (o : observation)
  (Hin : In o data) (Hgap : fneq (o_gap o) (Fin 0) = true)
  (Hintra : feq (o_intraday o) (Fin 0) = true) :
  In (o_gap o, o_intraday o) (non_zero_rows (map o_gap data) (map o_intraday data)) /\
  same_sign (o_gap o, o_intraday o) = false.
Proof.
  split.
  - unfold non_zero_rows. apply filter_In. split; [apply in_combine_map; exact Hin|exact Hgap].
  - unfold same_sign. simpl. rewrite (np_sign_feq_zero _ Hintra).
    change (feq (np_sign (o_gap o)) (np_sign (Fin 0)) = false). apply feq_sign_zero; exact Hgap.
Qed.

Lemma filter_id_map {A : Type} (f : A -> bool) (l : list A) :
  length (filter (fun b => b) (map f l)) = length (filter f l).
Proof.
  induction l as [|x l IH]; simpl; [reflexivity|].
  destruct (f x); simpl; rewrite ?IH; reflexivity.
Qed.

Lemma filter_length_le {A : Type} (f : A -> bool) (l : list A) :
  (length (filter f l) <= length l)%nat.
Proof.
  induction l as [|x l IH]; simpl; [lia|].
  destruct (f x); simpl; lia.
Qed.

Lemma ratio_bounds (k n : nat) :
  (k <= n)%nat -> (0 < n)%nat ->
  0 <= inject_Z (Z.of_nat k) / inject_Z (Z.of_nat n) * 100 <= 100.
Proof.
  intros Hkn Hn.
  assert (Hn' : 0 < inject_Z (Z.of_nat n)).
  { change 0 with (inject_Z 0). rewrite <- Zlt_Qlt. lia. }
  assert (H0 : 0 <= inject_Z (Z.of_nat k) / inject_Z (Z.of_nat n)).
  { apply Qle_shift_div_l; [exact Hn'|].
    rewrite Qmult_0_l. change 0 with (inject_Z 0). rewrite <- Zle_Qle. lia. }
  assert (H1 : inject_Z (Z.of_nat k) / inject_Z (Z.of_nat n) <= 1).
  { apply Qle_shift_div_r; [exact Hn'|].
    rewrite Qmult_1_l. rewrite <- Zle_Qle. lia. }
  split.
  - apply Qmult_le_0_compat; [exact H0|discriminate].
  - rewrite <- (Qmult_1_l 100) at 2.
    apply Qmult_le_compat_r; [exact H1|discriminate].
Qed.

Lemma bool_mean_map {A : Type} (f : A -> bool) (l : list A) :
  l <> [] ->
  bool_mean (map f l) =
    Fin (inject_Z (Z.of_nat (length (filter f l))) / inject_Z (Z.of_nat (length l))).
Proof.
  intro Hne. unfold bool_mean, of_nat, fdiv. rewrite filter_id_map, length_map.
  replace (Qeq_bool (inject_Z (Z.of_nat (length l))) 0) with false; [reflexivity|].
  symmetry. apply not_true_iff_false. intro H. apply Qeq_bool_iff in H.
  destruct l as [|a l]; [congruence|].
  unfold Qeq, inject_Z in H. simpl Qnum in H. rewrite length_cons in H. lia.
Qed.

(** C3.  The same-direction ratio is 0 when no row has a non-zero gapPct;
    otherwise it is 100 times the fraction of the non-zero-gap rows whose
    gapPct and intradayPct have the same [np.sign], and lies in [0, 100]. *)
Theorem same_direction_pct_spec (gaps intradays : list num) :
  let nz := non_zero_rows gaps intradays in
  (nz = [] -> same_direction_pct gaps intradays = Fin 0) /\
  (nz <> [] ->
   exists q, same_direction_pct gaps intradays = Fin q /\
     q = inject_Z (Z.of_nat (length (filter same_sign nz))) / inject_Z (Z.of_nat (length nz)) * 100 /\
     0 <= q <= 100).
Proof.
  intro nz. unfold same_direction_pct. fold nz. clearbody nz.
  split.
  - intros ->. reflexivity.
  - intro Hne.
    assert (Hm : match nz with
                 | [] => Fin 0
                 | _ => fmul (bool_mean (map same_sign nz)) (Fin 100)
                 end = fmul (bool_mean (map same_sign nz)) (Fin 100))
      by (destruct nz; [congruence|reflexivity]).
    rewrite Hm, (bool_mean_map _ _ Hne).
    eexists; split; [reflexivity|]. split; [reflexivity|].
    apply ratio_bounds; [apply filter_length_le|].
    destruct nz; [congruence|simpl; lia].
Qed.

(** ** The loop over the earnings dates *)

Lemma loop_state (hist : list bar) (eds : list Z) (s : state) :
  snd (loop hist eds s) = s ++ observations hist eds.
Proof.
  unfold observations.
  revert s. induction eds as [|ed rest IH]; intro s; simpl.
  - rewrite app_nil_r. reflexivity.
  - destruct (process_event hist ed) as [o|]; [|apply IH].
    unfold bind, append. rewrite (IH (s ++ [o])), (IH ([] ++ [o])).
    rewrite <- app_assoc. reflexivity.
Qed.

Lemma observations_cons (hist : list bar) (ed : Z) (rest : list Z) :
  observations hist (ed :: rest) =
    match process_event hist ed with
    | Some o => o :: observations hist rest
    | None => observations hist rest
    end.
Proof.
  unfold observations at 1. simpl.
  destruct (process_event hist ed) as [o|]; [|reflexivity].
  unfold bind, append. rewrite loop_state. reflexivity.
Qed.

Lemma observations_app (hist : list bar) (l1 l2 : list Z) :
  observations hist (l1 ++ l2) = observations hist l1 ++ observations hist l2.
Proof.
  induction l1 as [|ed l1 IH]; [reflexivity|].
  simpl app. rewrite !observations_cons.
  destruct (process_event hist ed); rewrite IH; reflexivity.
Qed.

Lemma observations_in (hist : list bar) (eds : list Z) (o : observation) :
  In o (observations hist eds) -> exists ed, In ed eds /\ process_event hist ed = Some o.
Proof.
  induction eds as [|ed rest IH]; [contradiction|].
  rewrite observations_cons.
  destruct (process_event hist ed) as [o'|] eqn:E.
  - intros [<- | H]; [exists ed; simpl; auto|].
    destruct (IH H) as (ed' & Hin & Hp). exists ed'. simpl. auto.
  - intro H. destruct (IH H) as (ed' & Hin & Hp). exists ed'. simpl. auto.
Qed.

Lemma process_event_in_observations (hist : list bar) (eds : list Z) (ed : Z) (o : observation) :
  In ed eds -> process_event hist ed = Some o -> In o (observations hist eds).
Proof.
  intros Hin Hp. apply in_split in Hin. destruct Hin as (l1 & l2 & ->).
  rewrite observations_app, observations_cons, Hp.
  apply in_or_app. right. left. reflexivity.
Qed.

(** ** Alignment *)

Lemma last_opt_in {A : Type} (l : list A) (x : A) : last_opt l = Some x -> In x l.
Proof.
  induction l as [|a t IH]; simpl; [discriminate|].
  destruct t as [|b t']; [intro H; injection H as <-; left; reflexivity|].
  intro H. right. apply IH. exact H.
Qed.

Lemma last_opt_exists {A : Type} (l : list A) : l <> [] -> exists x, last_opt l = Some x.
Proof.
  induction l as [|a t IH]; [congruence|].
  intros _. destruct t as [|b t']; [exists a; reflexivity|].
  apply IH. discriminate.
Qed.

Lemma filter_nonempty {A : Type} (f : A -> bool) (l : list A) (x : A) :
  In x l -> f x = true -> filter f l <> [].
Proof.
  intros Hin Hf Hnil. assert (H : In x (filter f l)) by (apply filter_In; auto).
  rewrite Hnil in H. exact H.
Qed.

Lemma loc_exists (hist : list bar) (d : Z) :
  In d (index hist) -> exists b, loc hist d = Some b /\ In b hist /\ b_date b = d.
Proof.
  intro Hin. unfold loc.
  destruct (find (fun b => Z.eqb (b_date b) d) hist) as [b|] eqn:E.
  - apply find_some in E. destruct E as [Hb Heq]. apply Z.eqb_eq in Heq.
    exists b. auto.
  - exfalso. unfold index in Hin. apply in_map_iff in Hin. destruct Hin as (b & Hd & Hb).
    apply (find_none _ _ E) in Hb. rewrite Hd, Z.eqb_refl in Hb. discriminate.
Qed.

Lemma loc_in (hist : list bar) (d : Z) (b : bar) : loc hist d = Some b -> In b hist.
Proof. intro H. apply find_some in H. tauto. Qed.

(** When both a bar at or before [ed] and a bar after it exist, the loop
    body produces its observation: the two [continue]s are not taken and
    nothing in the body raises. *)
Lemma process_event_some (hist : list bar) (ed : Z) :
  (exists d, In d (index hist) /\ (d <= ed)%Z) ->
  (exists d, In d (index hist) /\ (ed < d)%Z) ->
  exists pre_date pre_row next_date next_row,
    last_opt (filter (fun d => Z.leb d ed) (index hist)) = Some pre_date /\
    loc hist pre_date = Some pre_row /\
    head_opt (filter (fun d => Z.ltb ed d) (index hist)) = Some next_date /\
    loc hist next_date = Some next_row /\
    process_event hist ed =
      Some (mkObs (date_of ed) (date_of pre_date) (date_of next_date)
                  (round2 (gap_pct (Fin (b_close pre_row)) (Fin (b_open next_row))))
                  (round2 (intraday_pct (Fin (b_open next_row)) (Fin (b_close next_row))))).
Proof.
  intros (d1 & Hd1 & Hle) (d2 & Hd2 & Hlt).
  destruct (last_opt_exists (filter (fun d => Z.leb d ed) (index hist))) as [pre_date Hpre].
  { apply (filter_nonempty _ _ d1 Hd1). apply Z.leb_le. exact Hle. }
  assert (Hpin : In pre_date (index hist)).
  { apply last_opt_in, filter_In in Hpre. tauto. }
  destruct (loc_exists hist pre_date Hpin) as (pre_row & Hloc1 & _).
  destruct (filter (fun d => Z.ltb ed d) (index hist)) as [|next_date rest] eqn:Enext.
  { exfalso. apply (filter_nonempty _ _ d2 Hd2 (proj2 (Z.ltb_lt _ _) Hlt)). exact Enext. }
  assert (Hnin : In next_date (index hist)).
  { assert (H : In next_date (filter (fun d => Z.ltb ed d) (index hist)))
      by (rewrite Enext; left; reflexivity).
    apply filter_In in H. tauto. }
  destruct (loc_exists hist next_date Hnin) as (next_row & Hloc2 & _).
  exists pre_date, pre_row, next_date, next_row.
  repeat split; try assumption.
  unfold process_event. rewrite Hpre, Hloc1, Enext. cbn [head_opt]. rewrite Hloc2.
  reflexivity.
Qed.

(** ** C7: events without a bar on one side *)

Lemma filter_all_false {A : Type} (f : A -> bool) (l : list A) :
  (forall x, In x l -> f x = false) -> filter f l = [].
Proof.
  induction l as [|x l IH]; intro H; simpl; [reflexivity|].
  rewrite (H x (or_introl eq_refl)). apply IH. intros y Hy. apply H. right. exact Hy.
Qed.

(** C7.  When no bar is at or before the earnings date [ed], or no bar is
    after it, the loop body produces no observation for [ed], and the
    observations of the other earnings dates are those they get without
    [ed]. *)
Theorem unaligned_event_skipped (hist : list bar) (eds1 eds2 : list Z) (ed : Z)
  (Hnone : (forall d, In d (index hist) -> (ed < d)%Z) \/
           (forall d, In d (index hist) -> (d <= ed)%Z)) :
  process_event hist ed = None /\
  observations hist (eds1 ++ ed :: eds2) = observations hist eds1 ++ observations hist eds2.
Proof.
  assert (Hp : process_event hist ed = None).
  { unfold process_event. destruct Hnone as [Hall | Hall].
    - rewrite (filter_all_false (fun d => Z.leb d ed) (index hist)); [reflexivity|].
      intros d Hd. apply Z.leb_gt. apply Hall. exact Hd.
    - rewrite (filter_all_false (fun d => Z.ltb ed d) (index hist)).
      + destruct (last_opt _); [destruct (loc _ _)|]; reflexivity.
      + intros d Hd. apply Z.ltb_ge. apply Hall. exact Hd. }
  split; [exact Hp|].
  rewrite observations_app, observations_cons, Hp. reflexivity.
Qed.

(** ** C2: the dates of an observation *)

Lemma StronglySorted_filter {A : Type} (R : A -> A -> Prop) (f : A -> bool) (l : list A) :
  StronglySorted R l -> StronglySorted R (filter f l).
Proof.
  induction 1 as [|a l Hs IH Hall]; simpl; [constructor|].
  destruct (f a); [|exact IH].
  constructor; [exact IH|].
  apply Forall_forall. intros x Hx. apply filter_In in Hx.
  rewrite Forall_forall in Hall. apply Hall. tauto.
Qed.

Lemma last_opt_max (l : list Z) (x : Z) :
  StronglySorted Z.lt l -> last_opt l = Some x -> forall y, In y l -> (y <= x)%Z.
Proof.
  induction 1 as [|a t Hs IH Hall]; [discriminate|].
  intros Hlast y Hy.
  destruct t as [|b t'].
  - simpl in Hlast. injection Hlast as <-. destruct Hy as [<- | []]. lia.
  - change (last_opt (b :: t') = Some x) in Hlast.
    destruct Hy as [<- | Hy].
    + rewrite Forall_forall in Hall. apply Z.lt_le_incl. apply Hall.
      apply last_opt_in. exact Hlast.
    + apply IH; assumption.
Qed.

Lemma head_opt_min (l : list Z) (x : Z) :
  StronglySorted Z.lt l -> head_opt l = Some x -> forall y, In y l -> (x <= y)%Z.
Proof.
  intros Hs Hh y Hy. destruct Hs as [|a t Hs Hall]; [discriminate|].
  simpl in Hh. injection Hh as <-.
  destruct Hy as [<- | Hy]; [lia|].
  rewrite Forall_forall in Hall. apply Z.lt_le_incl. apply Hall. exact Hy.
Qed.

Lemma head_opt_in {A : Type} (l : list A) (x : A) : head_opt l = Some x -> In x l.
Proof. destruct l as [|a t]; simpl; [discriminate|]. intro H. injection H as <-. left. reflexivity. Qed.

Lemma date_of_mono (a b : Z) : (a <= b)%Z -> (date_of a <= date_of b)%Z.
Proof. intro H. unfold date_of, day_len. apply Z.div_le_mono; lia. Qed.

(** C2.  For date-ordered bars with unique dates, and an earnings date
    [ed] with a bar at or before it and a bar after it, the loop body
    produces an observation whose pre-earnings date comes from the latest
    bar date [<= ed] and whose post-earnings date comes from the earliest
    bar date [> ed]; so [preDate <= ed < postDate] on the bar dates (and on
    the calendar days stored in the row, [preDate <= earningsDate <= postDate]). *)
Theorem aligned_observation_dates (hist : list bar) (ed : Z)
  (Hsorted : Sorted Z.lt (index hist))
  (Hpre : exists d, In d (index hist) /\ (d <= ed)%Z)
  (Hpost : exists d, In d (index hist) /\ (ed < d)%Z) :
  exists pre_date next_date o,
    process_event hist ed = Some o /\
    o_earnings o = date_of ed /\ o_pre o = date_of pre_date /\ o_post o = date_of next_date /\
    In pre_date (index hist) /\ (pre_date <= ed)%Z /\
    (forall d, In d (index hist) -> (d <= ed)%Z -> (d <= pre_date)%Z) /\
    In next_date (index hist) /\ (ed < next_date)%Z /\
    (forall d, In d (index hist) -> (ed < d)%Z -> (next_date <= d)%Z) /\
    (date_of pre_date <= date_of ed <= date_of next_date)%Z.
Proof.
  destruct (process_event_some hist ed Hpre Hpost)
    as (pre_date & pre_row & next_date & next_row & Hlast & _ & Hhead & _ & Hp).
  apply Sorted_StronglySorted in Hsorted; [|exact Z.lt_trans].
  assert (Hpf : In pre_date (filter (fun d => Z.leb d ed) (index hist)))
    by (apply last_opt_in; exact Hlast).
  assert (Hnf : In next_date (filter (fun d => Z.ltb ed d) (index hist)))
    by (apply head_opt_in; exact Hhead).
  apply filter_In in Hpf as [Hpin Hple]. apply Z.leb_le in Hple.
  apply filter_In in Hnf as [Hnin Hnlt]. apply Z.ltb_lt in Hnlt.
  exists pre_date, next_date.
  eexists; split; [exact Hp|].
  repeat split; try assumption.
  - intros d Hd Hle. apply (last_opt_max _ _ (StronglySorted_filter _ _ _ Hsorted) Hlast).
    apply filter_In. split; [exact Hd|]. apply Z.leb_le. exact Hle.
  - intros d Hd Hlt. apply (head_opt_min _ _ (StronglySorted_filter _ _ _ Hsorted) Hhead).
    apply filter_In. split; [exact Hd|]. apply Z.ltb_lt. exact Hlt.
  - apply date_of_mono. exact Hple.
  - apply date_of_mono. lia.
Qed.

(** ** C1: zero prices *)

Lemma fmul100_nonfinite (x : num) :
  is_finite x = false -> is_finite (fmul x (Fin 100)) = false.
Proof. destruct x; try discriminate; reflexivity. Qed.

Lemma round2_nonfinite (x : num) : is_finite x = false -> is_finite (round2 x) = false.
Proof. destruct x; try discriminate; reflexivity. Qed.

Lemma fdiv_zero_nonfinite (x a : Q) : a == 0 -> is_finite (fdiv (Fin x) (Fin a)) = false.
Proof.
  intro Ha. apply Qeq_bool_iff in Ha. unfold fdiv. rewrite Ha.
  destruct (signb (Fin x)) as [[|]|]; reflexivity.
Qed.

Lemma gap_pct_zero_close (pc po : Q) :
  pc == 0 -> is_finite (round2 (gap_pct (Fin pc) (Fin po))) = false.
Proof.
  intro H. apply round2_nonfinite. unfold gap_pct. apply fmul100_nonfinite.
  apply fdiv_zero_nonfinite. exact H.
Qed.

Lemma intraday_pct_zero_open (po pcl : Q) :
  po == 0 -> is_finite (round2 (intraday_pct (Fin po) (Fin pcl))) = false.
Proof.
  intro H. apply round2_nonfinite. unfold intraday_pct. apply fmul100_nonfinite.
  apply fdiv_zero_nonfinite. exact H.
Qed.

(** C1 (counterexample).  With a close of 0 on the pre-earnings bar the
    division does not raise: the observation is kept, with gapPct [inf],
    and it is part of the result the aggregates are computed from. *)
Lemma zero_close_not_excluded :
  exists r,
    analyze [reported jan1] zero_close_bars = inr r /\
    r_obs r = [mkObs (date_of jan1) (date_of jan1) (date_of jan2) PInf
                     (round2 (intraday_pct (Fin 103) (Fin 101)))] /\
    r_obs r <> [].
Proof.
  eexists. split; [vm_compute; reflexivity|]. split; [vm_compute; reflexivity|].
  vm_compute. discriminate.
Qed.

(** C1 (amended).  An earnings date with a bar at or before it and a bar
    after it always yields an observation, also when the pre-earnings close
    or the post-earnings open is 0: no exception is raised, the observation
    is in the observations list, and its gapPct (close 0) or intradayPct
    (open 0) is not finite (inf, -inf or nan). *)
Theorem zero_price_observation_kept (hist : list bar) (eds : list Z) (ed : Z)
  (Hin : In ed eds)
  (Hpre : exists d, In d (index hist) /\ (d <= ed)%Z)
  (Hpost : exists d, In d (index hist) /\ (ed < d)%Z) :
  exists pre_date pre_row next_date next_row o,
    last_opt (filter (fun d => Z.leb d ed) (index hist)) = Some pre_date /\
    loc hist pre_date = Some pre_row /\
    head_opt (filter (fun d => Z.ltb ed d) (index hist)) = Some next_date /\
    loc hist next_date = Some next_row /\
    process_event hist ed = Some o /\
    In o (observations hist eds) /\
    (b_close pre_row == 0 -> is_finite (o_gap o) = false) /\
    (b_open next_row == 0 -> is_finite (o_intraday o) = false).
Proof.
  destruct (process_event_some hist ed Hpre Hpost)
    as (pre_date & pre_row & next_date & next_row & Hlast & Hloc1 & Hhead & Hloc2 & Hp).
  exists pre_date, pre_row, next_date, next_row.
  eexists. repeat split; try eassumption.
  - apply (process_event_in_observations _ _ _ _ Hin Hp).
  - intro H. apply gap_pct_zero_close. exact H.
  - intro H. apply intraday_pct_zero_open. exact H.
Qed.

Lemma zero_price_observation_kept_witness :
  In jan1 [jan1] /\
  (exists d, In d (index zero_close_bars) /\ (d <= jan1)%Z) /\
  (exists d, In d (index zero_close_bars) /\ (jan1 < d)%Z) /\
  exists pre_date pre_row next_date next_row o,
    last_opt (filter (fun d => Z.leb d jan1) (index zero_close_bars)) = Some pre_date /\
    loc zero_close_bars pre_date = Some pre_row /\
    head_opt (filter (fun d => Z.ltb jan1 d) (index zero_close_bars)) = Some next_date /\
    loc zero_close_bars next_date = Some next_row /\
    process_event zero_close_bars jan1 = Some o /\
    In o (observations zero_close_bars [jan1]) /\
    (b_close pre_row == 0 -> is_finite (o_gap o) = false) /\
    (b_open next_row == 0 -> is_finite (o_intraday o) = false).
Proof.
  assert (H1 : In jan1 [jan1]) by (left; reflexivity).
  assert (H2 : exists d, In d (index zero_close_bars) /\ (d <= jan1)%Z)
    by (exists jan1; split; [left; reflexivity | unfold jan1, day_len; lia]).
  assert (H3 : exists d, In d (index zero_close_bars) /\ (jan1 < d)%Z)
    by (exists jan2; split; [right; left; reflexivity | unfold jan1, jan2, day_len; lia]).
  split; [exact H1|]. split; [exact H2|]. split; [exact H3|].
  exact (zero_price_observation_kept zero_close_bars [jan1] jan1 H1 H2 H3).
Defined.

(** ** C5: the aggregates read the rounded columns *)

Lemma analyze_inr (earnings : list earnings_row) (hist : list bar) (r : analysis_result) :
  analyze earnings hist = inr r ->
  r_obs r = observations hist (map e_date (filter has_eps earnings)) /\
  r_corr r = series_corr (map o_gap (r_obs r)) (map o_intraday (r_obs r)) /\
  r_same r = same_direction_pct (map o_gap (r_obs r)) (map o_intraday (r_obs r)).
Proof.
  unfold analyze, analyze_run, observations.
  destruct earnings as [|e es]; [discriminate|].
  destruct (filter has_eps (e :: es)) as [|f fs]; [discriminate|].
  destruct hist as [|b bs]; [discriminate|].
  unfold bind, put, get.
  destruct (loop (b :: bs) (map e_date (f :: fs)) []) as [u data].
  destruct data as [|o os]; [discriminate|].
  simpl. intro H. injection H as <-. simpl. auto.
Qed.

Lemma process_event_metrics (hist : list bar) (ed : Z) (o : observation) :
  process_event hist ed = Some o ->
  exists pre_row next_row,
    In pre_row hist /\ In next_row hist /\
    o_gap o = round2 (gap_pct (Fin (b_close pre_row)) (Fin (b_open next_row))) /\
    o_intraday o = round2 (intraday_pct (Fin (b_open next_row)) (Fin (b_close next_row))).
Proof.
  unfold process_event.
  destruct (last_opt _) as [pre_date|]; [|discriminate].
  destruct (loc hist pre_date) as [pre_row|] eqn:E1; [|discriminate].
  destruct (head_opt _) as [next_date|]; [|discriminate].
  destruct (loc hist next_date) as [next_row|] eqn:E2; [|discriminate].
  intro H. injection H as <-.
  exists pre_row, next_row. repeat split; try reflexivity.
  - apply (loc_in _ _ _ E1).
  - apply (loc_in _ _ _ E2).
Qed.

(** C5 (counterexample).  A gap of 0.004% (close 1000, next open 1000.04)
    followed by a rise: over the unrounded values the same-direction ratio
    is 100, but the handler rounds the gap to 0.00 before line 98, drops the
    row from the non-zero-gap rows and reports 0. *)
Lemma rounded_gap_changes_ratio :
  exists r,
    analyze [reported jan1] small_gap_bars = inr r /\
    map o_gap (r_obs r) = [round2 (gap_pct (Fin 1000) (Fin (100004 # 100)))] /\
    r_same r = Fin 0 /\
    feq (same_direction_pct [gap_pct (Fin 1000) (Fin (100004 # 100))]
                            [intraday_pct (Fin (100004 # 100)) (Fin 1010)]) (Fin 100) = true.
Proof.
  eexists. split; [vm_compute; reflexivity|].
  repeat split; vm_compute; reflexivity.
Qed.

(** C5 (amended).  gapPct and intradayPct are rounded to 2 decimal places
    when the row is stored, and both aggregates are computed over those
    rounded values: each stored value is [round2] of the section-3 formula,
    and the correlation and the same-direction ratio are functions of the
    stored columns. *)
Theorem aggregates_use_rounded_values (earnings : list earnings_row) (hist : list bar)
  (r : analysis_result) (H : analyze earnings hist = inr r) :
  r_corr r = series_corr (map o_gap (r_obs r)) (map o_intraday (r_obs r)) /\
  r_same r = same_direction_pct (map o_gap (r_obs r)) (map o_intraday (r_obs r)) /\
  (forall o, In o (r_obs r) ->
     exists pre_row next_row,
       In pre_row hist /\ In next_row hist /\
       o_gap o = round2 (gap_pct (Fin (b_close pre_row)) (Fin (b_open next_row))) /\
       o_intraday o = round2 (intraday_pct (Fin (b_open next_row)) (Fin (b_close next_row)))).
Proof.
  destruct (analyze_inr _ _ _ H) as (Hobs & Hcorr & Hsame).
  split; [exact Hcorr|]. split; [exact Hsame|].
  intros o Ho. rewrite Hobs in Ho.
  destruct (observations_in _ _ _ Ho) as (ed & _ & Hp).
  exact (process_event_metrics _ _ _ Hp).
Qed.

Lemma aggregates_use_rounded_values_witness :
  exists r, analyze [reported jan1] example_bars = inr r /\
  r_corr r = series_corr (map o_gap (r_obs r)) (map o_intraday (r_obs r)) /\
  r_same r = same_direction_pct (map o_gap (r_obs r)) (map o_intraday (r_obs r)) /\
  (forall o, In o (r_obs r) ->
     exists pre_row next_row,
       In pre_row example_bars /\ In next_row example_bars /\
       o_gap o = round2 (gap_pct (Fin (b_close pre_row)) (Fin (b_open next_row))) /\
       o_intraday o = round2 (intraday_pct (Fin (b_open next_row)) (Fin (b_close next_row)))).
Proof.
  destruct (analyze [reported jan1] example_bars) as [err|r] eqn:E.
  - exfalso. vm_compute in E. discriminate.
  - exists r. split; [reflexivity|].
    exact (aggregates_use_rounded_values [reported jan1] example_bars r E).
Defined.

(** ** C4: the correlation *)

(** *** Finite series *)

Lemma fold_fadd_fin (l : list Q) (a : Q) :
  fold_left fadd (map Fin l) (Fin a) = Fin (fold_left Qplus l a).
Proof.
  revert a. induction l as [|x l IH]; intro a; simpl; [reflexivity|]. apply IH.
Qed.

Lemma fsum_fin (l : list Q) : fsum (map Fin l) = Fin (qsum l).
Proof. apply fold_fadd_fin. Qed.

Lemma of_nat_pos (n : nat) : (0 < n)%nat -> 0 < inject_Z (Z.of_nat n).
Proof. intro H. unfold Qlt. simpl. lia. Qed.

Lemma Qeq_bool_of_nat (n : nat) : (0 < n)%nat -> Qeq_bool (inject_Z (Z.of_nat n)) 0 = false.
Proof.
  intro H. apply not_true_iff_false. intro E. apply Qeq_bool_iff in E.
  unfold Qeq in E. simpl in E. lia.
Qed.

Lemma fmean_fin (l : list Q) : l <> [] -> fmean (map Fin l) = Fin (qmean l).
Proof.
  intro Hne. unfold fmean, qmean, of_nat. rewrite fsum_fin, length_map.
  unfold fdiv. rewrite Qeq_bool_of_nat; [reflexivity|].
  destruct l; [congruence|simpl; lia].
Qed.

Lemma deviations_fin (l : list Q) : l <> [] -> deviations (map Fin l) = map Fin (qdev l).
Proof.
  intro Hne. unfold deviations, qdev. rewrite (fmean_fin l Hne).
  rewrite !map_map. reflexivity.
Qed.

Lemma combine_map_fin (a b : list Q) :
  combine (map Fin a) (map Fin b) = map (fun p => (Fin (fst p), Fin (snd p))) (combine a b).
Proof.
  revert b. induction a as [|x a IH]; intros [|y b]; simpl; try reflexivity.
  rewrite IH. reflexivity.
Qed.

Lemma fdot_fin (a b : list Q) : fdot (map Fin a) (map Fin b) = Fin (qdot a b).
Proof.
  unfold fdot, qdot. rewrite combine_map_fin, map_map.
  rewrite <- fsum_fin, map_map. reflexivity.
Qed.

Lemma corrcoef_fin_single (a b : Q) : corrcoef [Fin a] [Fin b] = CorrNaN.
Proof.
  change [Fin a] with (map Fin [a]). change [Fin b] with (map Fin [b]).
  unfold corrcoef. rewrite !deviations_fin by discriminate. rewrite !fdot_fin.
  assert (Hs : fdiv (Fin 1) (fsub (of_nat (length (map Fin [a]))) (Fin 1)) = PInf)
    by reflexivity.
  assert (Hc : fmul (Fin (qdot (qdev [a]) (qdev [b]))) PInf = NaN).
  { unfold fmul, signb.
    replace (Qeq_bool (qdot (qdev [a]) (qdev [b])) 0) with true; [reflexivity|].
    symmetry. apply Qeq_bool_iff. unfold qdot, qdev, qmean, qsum. simpl. field. }
  rewrite Hs, Hc. reflexivity.
Qed.

(** *** Infinite values *)

Lemma fadd_inf_l (i x : num) : is_inf i -> fadd i x = i \/ fadd i x = NaN.
Proof. intros [-> | ->]; destruct x; simpl; auto. Qed.

Lemma fadd_inf_r (i x : num) : is_inf i -> fadd x i = i \/ fadd x i = NaN.
Proof. intros [-> | ->]; destruct x; simpl; auto. Qed.

Lemma fadd_nan_r (x : num) : fadd x NaN = NaN.
Proof. destruct x; reflexivity. Qed.

Lemma fold_fadd_nan (l : list num) : fold_left fadd l NaN = NaN.
Proof. induction l as [|x l IH]; simpl; [reflexivity|exact IH]. Qed.

Lemma fold_fadd_keep (i : num) (l : list num) (acc : num) :
  is_inf i -> acc = i \/ acc = NaN -> fold_left fadd l acc = i \/ fold_left fadd l acc = NaN.
Proof.
  intro Hi. revert acc. induction l as [|x l IH]; intros acc Hacc; simpl; [exact Hacc|].
  apply IH. destruct Hacc as [-> | ->]; [apply fadd_inf_l; exact Hi|right; reflexivity].
Qed.

Lemma fold_fadd_in_inf (i : num) (l : list num) (acc : num) :
  is_inf i -> In i l -> fold_left fadd l acc = i \/ fold_left fadd l acc = NaN.
Proof.
  intro Hi. revert acc. induction l as [|x l IH]; intros acc Hin; [contradiction|].
  simpl. destruct Hin as [-> | Hin].
  - apply fold_fadd_keep; [exact Hi|]. apply fadd_inf_r. exact Hi.
  - apply IH. exact Hin.
Qed.

Lemma fold_fadd_in_nan (l : list num) (acc : num) :
  In NaN l -> fold_left fadd l acc = NaN.
Proof.
  revert acc. induction l as [|x l IH]; intros acc Hin; [contradiction|].
  simpl. destruct Hin as [-> | Hin].
  - rewrite fadd_nan_r. apply fold_fadd_nan.
  - apply IH. exact Hin.
Qed.

Lemma signb_of_nat (n : nat) : (0 < n)%nat -> signb (of_nat n) = Some true.
Proof.
  intro H. unfold signb, of_nat. rewrite Qeq_bool_of_nat by exact H.
  f_equal. apply Qltb_true. apply of_nat_pos. exact H.
Qed.

Lemma fmean_in_inf (i : num) (l : list num) :
  is_inf i -> In i l -> fmean l = i \/ fmean l = NaN.
Proof.
  intros Hi Hin. unfold fmean.
  assert (Hn : (0 < length l)%nat) by (destruct l; [contradiction|simpl; lia]).
  assert (Hs := signb_of_nat _ Hn).
  destruct (fold_fadd_in_inf i l (Fin 0) Hi Hin) as [Hsum | Hsum];
    unfold fsum; rewrite Hsum; [|right; reflexivity].
  left. destruct Hi as [-> | ->]; unfold fdiv; unfold of_nat in *;
    rewrite Hs; reflexivity.
Qed.

Lemma deviations_in_inf (i : num) (l : list num) :
  is_inf i -> In i l -> In NaN (deviations l).
Proof.
  intros Hi Hin. unfold deviations. apply in_map_iff. exists i. split; [|exact Hin].
  destruct (fmean_in_inf i l Hi Hin) as [-> | ->].
  - destruct Hi as [-> | ->]; reflexivity.
  - unfold fsub, fneg. apply fadd_nan_r.
Qed.

Lemma in_combine_l {A B : Type} (a : A) (xs : list A) (ys : list B) :
  In a xs -> length xs = length ys -> exists b, In (a, b) (combine xs ys).
Proof.
  revert ys. induction xs as [|x xs IH]; intros [|y ys] Hin Hlen; try (simpl in *; lia || contradiction).
  destruct Hin as [-> | Hin].
  - exists y. left. reflexivity.
  - destruct (IH ys Hin) as [b Hb]; [simpl in Hlen; lia|]. exists b. right. exact Hb.
Qed.

Lemma in_combine_r {A B : Type} (b : B) (xs : list A) (ys : list B) :
  In b ys -> length xs = length ys -> exists a, In (a, b) (combine xs ys).
Proof.
  revert ys. induction xs as [|x xs IH]; intros [|y ys] Hin Hlen; try (simpl in *; lia || contradiction).
  destruct Hin as [-> | Hin].
  - exists x. left. reflexivity.
  - destruct (IH ys Hin) as [a Ha]; [simpl in Hlen; lia|]. exists a. right. exact Ha.
Qed.

Lemma fdot_nan (dx dy : list num) :
  length dx = length dy -> In NaN dx \/ In NaN dy -> fdot dx dy = NaN.
Proof.
  intros Hlen Hin. unfold fdot, fsum. apply fold_fadd_in_nan.
  apply in_map_iff. destruct Hin as [Hin | Hin].
  - destruct (in_combine_l _ _ _ Hin Hlen) as [b Hb]. exists (NaN, b). split; [reflexivity|exact Hb].
  - destruct (in_combine_r _ _ _ Hin Hlen) as [a Ha]. exists (a, NaN). split; [|exact Ha].
    destruct a; reflexivity.
Qed.

Lemma corrcoef_inf (xs ys : list num) (i : num) :
  length xs = length ys -> is_inf i -> In i xs \/ In i ys -> corrcoef xs ys = CorrNaN.
Proof.
  intros Hlen Hi Hin. unfold corrcoef.
  rewrite (fdot_nan (deviations xs) (deviations ys)).
  - reflexivity.
  - unfold deviations. rewrite !length_map. exact Hlen.
  - destruct Hin as [Hin | Hin]; [left | right]; apply (deviations_in_inf i); assumption.
Qed.

(** *** The pandas correlation *)



Lemma valid_pairs_not_nan (xs ys : list num) (p : num * num) :
  In p (valid_pairs xs ys) -> is_nan (fst p) = false /\ is_nan (snd p) = false.
Proof.
  unfold valid_pairs. intro H. apply filter_In in H as [_ H].
  apply andb_true_iff in H as [H1 H2]. apply negb_true_iff in H1, H2. auto.
Qed.

Lemma corrcoef_single (x y : num) :
  is_nan x = false -> is_nan y = false -> corrcoef [x] [y] = CorrNaN.
Proof.
  intros Hx Hy.
  destruct (is_finite x) eqn:Fx; [destruct (is_finite y) eqn:Fy|].
  - destruct x as [a| | |]; try discriminate. destruct y as [b| | |]; try discriminate.
    apply corrcoef_fin_single.
  - apply (corrcoef_inf _ _ y); [reflexivity| |right; left; reflexivity].
    destruct y; try discriminate; unfold is_inf; auto.
  - apply (corrcoef_inf _ _ x); [reflexivity| |left; left; reflexivity].
    destruct x; try discriminate; unfold is_inf; auto.
Qed.

Lemma series_corr_two (xs ys : list num) :
  series_corr xs ys <> CorrNaN -> (2 <= length (valid_pairs xs ys))%nat.
Proof.
  unfold series_corr. intro H.
  destruct (valid_pairs xs ys) as [|p [|p' v]] eqn:E.
  - exfalso. apply H. reflexivity.
  - exfalso. apply H.
    assert (Hp : In p (valid_pairs xs ys)) by (rewrite E; left; reflexivity).
    destruct (valid_pairs_not_nan _ _ _ Hp) as [H1 H2].
    apply corrcoef_single; assumption.
  - simpl. lia.
Qed.


(** ** Instances of the theorems with hypotheses *)

Lemma aligned_observation_dates_witness :
  Sorted Z.lt (index example_bars) /\
  exists pre_date next_date o,
    process_event example_bars jan2 = Some o /\
    o_earnings o = date_of jan2 /\ o_pre o = date_of pre_date /\ o_post o = date_of next_date /\
    In pre_date (index example_bars) /\ (pre_date <= jan2)%Z /\
    (forall d, In d (index example_bars) -> (d <= jan2)%Z -> (d <= pre_date)%Z) /\
    In next_date (index example_bars) /\ (jan2 < next_date)%Z /\
    (forall d, In d (index example_bars) -> (jan2 < d)%Z -> (next_date <= d)%Z) /\
    (date_of pre_date <= date_of jan2 <= date_of next_date)%Z.
Proof.
  assert (Hs : Sorted Z.lt (index example_bars)).
  { unfold example_bars, index, jan1, jan2, jan3, day_len. simpl.
    repeat constructor; lia. }
  split; [exact Hs|].
  apply (aligned_observation_dates example_bars jan2 Hs).
  - exists jan1. split; [left; reflexivity|unfold jan1, jan2, day_len; lia].
  - exists jan3. split; [right; right; left; reflexivity|unfold jan2, jan3, day_len; lia].
Defined.

Lemma unaligned_event_skipped_witness :
  (forall d, In d (index example_bars) -> (d <= jan4)%Z) /\
  process_event example_bars jan4 = None /\
  observations example_bars ([jan1] ++ jan4 :: []) =
    observations example_bars [jan1] ++ observations example_bars [].
Proof.
  assert (H : forall d, In d (index example_bars) -> (d <= jan4)%Z).
  { intros d Hd. unfold example_bars, index in Hd. simpl in Hd.
    unfold jan1, jan2, jan3, jan4, day_len in *.
    destruct Hd as [<- | [<- | [<- | []]]]; lia. }
  split; [exact H|].
  apply (unaligned_event_skipped example_bars [jan1] [] jan4 (or_intror H)).
Defined.

Lemma zero_intraday_counted_against_witness :
  let o := mkObs 0 0 0 (Fin 1) (Fin 0) in
  In o [o] /\ fneq (o_gap o) (Fin 0) = true /\ feq (o_intraday o) (Fin 0) = true /\
  In (o_gap o, o_intraday o) (non_zero_rows (map o_gap [o]) (map o_intraday [o])) /\
  same_sign (o_gap o, o_intraday o) = false.
Proof.
  intro o.
  assert (H1 : In o [o]) by (left; reflexivity).
  assert (H2 : fneq (o_gap o) (Fin 0) = true) by reflexivity.
  assert (H3 : feq (o_intraday o) (Fin 0) = true) by reflexivity.
  split; [exact H1|]. split; [exact H2|]. split; [exact H3|].
  exact (zero_intraday_counted_against [o] o H1 H2 H3).
Defined.

(** * Further properties of the handler *)

Lemma analyze_eq (earnings : list earnings_row) (hist : list bar) :
  analyze earnings hist =
    match earnings with
    | [] => inl NoEarningsData
    | _ =>
        match filter has_eps earnings with
        | [] => inl NoReportedEps
        | _ =>
            match hist with
            | [] => inl NoHistoryData
            | _ =>
                match observations hist (map e_date (filter has_eps earnings)) with
                | [] => inl InsufficientAlignedData
                | data => inr (mkResult data (series_corr (map o_gap data) (map o_intraday data))
                                        (same_direction_pct (map o_gap data) (map o_intraday data)))
                end
            end
        end
    end.
Proof.
  unfold analyze, analyze_run, observations.
  destruct earnings as [|e es]; [reflexivity|].
  destruct (filter has_eps (e :: es)) as [|f fs]; [reflexivity|].
  destruct hist as [|b bs]; [reflexivity|].
  unfold bind, put, get.
  destruct (loop (b :: bs) (map e_date (f :: fs)) []) as [u data].
  destruct data; reflexivity.
Qed.

Lemma eps_rows_nil (l : list earnings_row) :
  filter has_eps l = [] <-> forall e, In e l -> e_eps e = None.
Proof.
  split.
  - intros H e He. destruct (e_eps e) as [q|] eqn:E; [|reflexivity]. exfalso.
    assert (Hin : In e (filter has_eps l))
      by (apply filter_In; split; [exact He|unfold has_eps; rewrite E; reflexivity]).
    rewrite H in Hin. exact Hin.
  - intro H. apply filter_all_false. intros e He. unfold has_eps. rewrite (H e He). reflexivity.
Qed.

Lemma eps_rows_cons (l : list earnings_row) :
  filter has_eps l <> [] <-> exists e, In e l /\ e_eps e <> None.
Proof.
  split.
  - intro H. destruct (filter has_eps l) as [|e fs] eqn:E; [congruence|].
    assert (Hin : In e (filter has_eps l)) by (rewrite E; left; reflexivity).
    apply filter_In in Hin as [Hin Hh]. exists e. split; [exact Hin|].
    unfold has_eps in Hh. destruct (e_eps e); [discriminate|discriminate].
  - intros (e & He & Hs). apply (filter_nonempty _ _ e He).
    unfold has_eps. destruct (e_eps e); [reflexivity|congruence].
Qed.

Lemma observations_nil (hist : list bar) (eds : list Z) :
  observations hist eds = [] <-> forall ed, In ed eds -> process_event hist ed = None.
Proof.
  induction eds as [|ed rest IH]; [split; [contradiction|reflexivity]|].
  rewrite observations_cons. destruct (process_event hist ed) as [o|] eqn:E.
  - split; [discriminate|]. intro H. rewrite (H ed (or_introl eq_refl)) in E. discriminate.
  - rewrite IH. split.
    + intros H d [<- | Hd]; [exact E|apply H; exact Hd].
    + intros H d Hd. apply H. right. exact Hd.
Qed.

(** X1.  The handler's outcome: it reports "no earnings data" exactly for
    an empty earnings table; "no reported EPS" exactly when the table is
    non-empty but no row has a reported EPS; "no historical price data"
    exactly when some row has an EPS and the price history is empty;
    "insufficient data" exactly when, in addition, the history is non-empty
    and no reported earnings date has bars on both sides.  A successful
    result holds the observations of the reported earnings dates, never an
    empty list. *)
Theorem analyze_outcomes (earnings : list earnings_row) (hist : list bar) :
  let eds := map e_date (filter has_eps earnings) in
  (analyze earnings hist = inl NoEarningsData <-> earnings = []) /\
  (analyze earnings hist = inl NoReportedEps <->
     earnings <> [] /\ forall e, In e earnings -> e_eps e = None) /\
  (analyze earnings hist = inl NoHistoryData <->
     (exists e, In e earnings /\ e_eps e <> None) /\ hist = []) /\
  (analyze earnings hist = inl InsufficientAlignedData <->
     (exists e, In e earnings /\ e_eps e <> None) /\ hist <> [] /\
     forall ed, In ed eds -> process_event hist ed = None) /\
  (forall r, analyze earnings hist = inr r -> r_obs r = observations hist eds /\ r_obs r <> []).
Proof.
  intro eds. rewrite analyze_eq. fold eds.
  rewrite <- eps_rows_nil, <- eps_rows_cons, <- observations_nil.
  destruct earnings as [|e es]; [|destruct (filter has_eps (e :: es)) as [|f fs] eqn:EF;
    [|destruct hist as [|b bs]; [|destruct (observations (b :: bs) eds) as [|o os] eqn:EO]]];
  repeat split; intros;
  repeat match goal with H : _ /\ _ |- _ => destruct H end;
  try discriminate; try congruence; try tauto;
  cbv zeta in *; match goal with H : inr _ = inr _ |- _ => injection H as <- end; simpl; congruence.
Qed.

Lemma process_event_dates (hist : list bar) (ed : Z) (o : observation) :
  process_event hist ed = Some o ->
  exists pre_date next_date,
    In pre_date (index hist) /\ In next_date (index hist) /\
    (pre_date <= ed < next_date)%Z /\
    o_earnings o = date_of ed /\ o_pre o = date_of pre_date /\ o_post o = date_of next_date.
Proof.
  unfold process_event.
  destruct (last_opt (filter (fun d => Z.leb d ed) (index hist))) as [pre_date|] eqn:E1;
    [|discriminate].
  destruct (loc hist pre_date) as [pre_row|]; [|discriminate].
  destruct (head_opt (filter (fun d => Z.ltb ed d) (index hist))) as [next_date|] eqn:E2;
    [|discriminate].
  destruct (loc hist next_date) as [next_row|]; [|discriminate].
  intro H. injection H as <-.
  apply last_opt_in, filter_In in E1 as [Hp Hle]. apply Z.leb_le in Hle.
  apply head_opt_in, filter_In in E2 as [Hn Hlt]. apply Z.ltb_lt in Hlt.
  exists pre_date, next_date. repeat split; assumption.
Qed.

Lemma match_nonnil {A B : Type} (l : list A) (x y : B) :
  l <> [] -> match l with [] => x | _ => y end = y.
Proof. destruct l; [congruence|reflexivity]. Qed.

(** X2.  A row of the earnings table without a reported EPS has no effect
    on the handler (as long as the table has other rows): inserting it
    anywhere gives the same outcome. *)
Theorem missing_eps_row_ignored (l1 l2 : list earnings_row) (e : earnings_row) (hist : list bar)
  (Hne : l1 ++ l2 <> []) (Heps : e_eps e = None) :
  analyze (l1 ++ e :: l2) hist = analyze (l1 ++ l2) hist.
Proof.
  rewrite !analyze_eq.
  assert (Hf : filter has_eps (l1 ++ e :: l2) = filter has_eps (l1 ++ l2)).
  { rewrite !filter_app. simpl. unfold has_eps at 2. rewrite Heps. reflexivity. }
  rewrite Hf.
  set (F := filter has_eps (l1 ++ l2)). clearbody F.
  rewrite (match_nonnil (l1 ++ e :: l2)) by (destruct l1; discriminate).
  rewrite (match_nonnil (l1 ++ l2)) by exact Hne.
  reflexivity.
Qed.

(** X4.  The loop body for an earnings date [ed] produces a row exactly
    when the price history has a bar dated at or before [ed] and a bar
    dated after it; otherwise it [continue]s (and never raises), whatever
    the order of the bars. *)
Theorem process_event_defined_iff (hist : list bar) (ed : Z) :
  process_event hist ed <> None <->
  (exists d, In d (index hist) /\ (d <= ed)%Z) /\ (exists d, In d (index hist) /\ (ed < d)%Z).
Proof.
  split.
  - intro H. destruct (process_event hist ed) as [o|] eqn:E; [|congruence].
    destruct (process_event_dates _ _ _ E) as (p & n & Hp & Hn & Hb & _).
    split; [exists p | exists n]; split; try assumption; lia.
  - intros [Hpre Hpost].
    destruct (process_event_some hist ed Hpre Hpost) as (p & pr & n & nr & _ & _ & _ & _ & E).
    rewrite E. discriminate.
Qed.

(** X5.  Every row of [data] comes from one of the earnings dates [ed]:
    its 'Earnings Date' is the day of [ed], its 'Pre-Earnings Date' and
    'Post-Earnings Date' are the days of bars of the history dated at or
    before [ed] and after [ed]; so the three days are in order.  This holds
    for any history, ordered or not. *)
Theorem observation_dates_bracket (hist : list bar) (eds : list Z) (o : observation)
  (Ho : In o (observations hist eds)) :
  exists ed pre_date next_date,
    In ed eds /\ In pre_date (index hist) /\ In next_date (index hist) /\
    (pre_date <= ed < next_date)%Z /\
    o_earnings o = date_of ed /\ o_pre o = date_of pre_date /\ o_post o = date_of next_date /\
    (o_pre o <= o_earnings o <= o_post o)%Z.
Proof.
  destruct (observations_in _ _ _ Ho) as (ed & Hed & Hp).
  destruct (process_event_dates _ _ _ Hp) as (p & n & Hpi & Hni & Hb & He & Hpre & Hpost).
  exists ed, p, n. repeat split; try assumption; try lia.
  - rewrite Hpre, He. apply date_of_mono. lia.
  - rewrite He, Hpost. apply date_of_mono. lia.
Qed.



(** ** The strategy section *)

Lemma valid_pairs_length (xs ys : list num) : (length (valid_pairs xs ys) <= length xs)%nat.
Proof.
  unfold valid_pairs. etransitivity; [apply filter_length_le|].
  rewrite length_combine. lia.
Qed.

Lemma of_nat_ratio_gt_half (k n : nat) :
  (0 < n)%nat -> Qltb 50 (inject_Z (Z.of_nat k) / inject_Z (Z.of_nat n) * 100) = true ->
  (n < 2 * k)%nat.
Proof.
  intros Hn H. apply Qltb_true in H.
  assert (HN : 0 < inject_Z (Z.of_nat n)) by (apply of_nat_pos; exact Hn).
  assert (E : inject_Z (Z.of_nat k) / inject_Z (Z.of_nat n) * 100 * inject_Z (Z.of_nat n)
              == inject_Z (Z.of_nat k) * 100).
  { field. apply Qnot_eq_sym, Qlt_not_eq. exact HN. }
  apply (Qmult_lt_r _ _ _ HN) in H. rewrite E in H.
  assert (H' : inject_Z (50 * Z.of_nat n) < inject_Z (Z.of_nat k * 100))
    by (rewrite !inject_Z_mult; exact H).
  rewrite <- Zlt_Qlt in H'. lia.
Qed.

Lemma same_direction_gt50 (gaps intradays : list num) :
  fgt (same_direction_pct gaps intradays) (Fin 50) = true ->
  let nz := non_zero_rows gaps intradays in
  nz <> [] /\ (length nz < 2 * length (filter same_sign nz))%nat.
Proof.
  unfold same_direction_pct. intro H. simpl.
  set (nz := non_zero_rows gaps intradays) in *. clearbody nz.
  destruct nz as [|r rs] eqn:E; [discriminate|].
  rewrite <- E in *. split; [rewrite E; discriminate|].
  assert (Hne : nz <> []) by (rewrite E; discriminate).
  rewrite (bool_mean_map _ _ Hne) in H.
  apply of_nat_ratio_gt_half; [rewrite E; simpl; lia|exact H].
Qed.

(** X8.  The handler shows the buy-at-open strategy (lines 121-127) only
    when the interpretation is the positive one, [df] has at least two rows
    (the correlation of fewer rows is NaN), and more than half of the rows
    with a non-zero 'Gap %' have a gap and an intraday move of the same
    sign. *)
Theorem buy_at_open_requires (earnings : list earnings_row) (hist : list bar) (r : analysis_result)
  (Hr : analyze earnings hist = inr r)
  (Hbuy : strategy_of (r_corr r) (r_same r) = BuyAtOpen) :
  let nz := non_zero_rows (map o_gap (r_obs r)) (map o_intraday (r_obs r)) in
  interpret (r_corr r) = PositiveDrift /\
  (2 <= length (r_obs r))%nat /\
  nz <> [] /\ (length nz < 2 * length (filter same_sign nz))%nat.
Proof.
  intro nz.
  destruct (analyze_inr _ _ _ Hr) as (_ & Hc & Hs).
  unfold strategy_of in Hbuy.
  destruct (corr_gt0 (r_corr r)) eqn:Eg; [|discriminate].
  destruct (fgt (r_same r) (Fin 50)) eqn:Ef; [|discriminate].
  split; [unfold interpret; rewrite Eg; reflexivity|].
  split.
  - assert (Hn : r_corr r <> CorrNaN) by (intro E; rewrite E in Eg; discriminate).
    rewrite Hc in Hn. apply series_corr_two in Hn.
    rewrite valid_pairs_length, length_map in Hn. exact Hn.
  - rewrite Hs in Ef. apply same_direction_gt50 in Ef. exact Ef.
Qed.

(** ** Swapping the two series *)

Lemma neqv_refl (x : num) : neqv x x.
Proof. destruct x; simpl; auto; reflexivity. Qed.

Lemma Qeq_bool_compat (a a' c : Q) : a == a' -> Qeq_bool a c = Qeq_bool a' c.
Proof.
  intro H. destruct (Qeq_bool a c) eqn:E; destruct (Qeq_bool a' c) eqn:E'; try reflexivity.
  - apply Qeq_bool_iff in E. apply Qeq_bool_neq in E'. exfalso. apply E'. rewrite <- H. exact E.
  - apply Qeq_bool_neq in E. apply Qeq_bool_iff in E'. exfalso. apply E. rewrite H. exact E'.
Qed.

Lemma Qltb_compat (a a' c : Q) : a == a' -> Qltb c a = Qltb c a'.
Proof.
  intro H. destruct (Qltb c a) eqn:E; destruct (Qltb c a') eqn:E'; try reflexivity.
  - apply Qltb_true in E. apply Qltb_false in E'. exfalso. rewrite H in E. lra.
  - apply Qltb_false in E. apply Qltb_true in E'. exfalso. rewrite H in E. lra.
Qed.

Lemma fadd_neqv (x x' y y' : num) : neqv x x' -> neqv y y' -> neqv (fadd x y) (fadd x' y').
Proof.
  destruct x as [a| | |], x' as [a'| | |], y as [b| | |], y' as [b'| | |];
    simpl; intros H1 H2; try contradiction; auto.
  rewrite H1, H2. reflexivity.
Qed.

Lemma fmul_neqv (x x' y y' : num) : neqv x x' -> neqv y y' -> neqv (fmul x y) (fmul x' y').
Proof.
  destruct x as [a| | |], x' as [a'| | |], y as [b| | |], y' as [b'| | |];
    simpl; intros H1 H2; try contradiction; auto;
    try (apply Qmult_comp; assumption);
    try (rewrite (Qeq_bool_compat _ _ 0 H1), (Qltb_compat _ _ 0 H1); apply neqv_refl);
    try (rewrite (Qeq_bool_compat _ _ 0 H2), (Qltb_compat _ _ 0 H2); apply neqv_refl).
Qed.

Lemma fmul_comm_neqv (x y : num) : neqv (fmul x y) (fmul y x).
Proof.
  destruct x as [a| | |], y as [b| | |]; simpl; auto;
    try (apply Qmult_comm);
    try (destruct (Qeq_bool a 0); [|destruct (Qltb 0 a)]; simpl; auto);
    try (destruct (Qeq_bool b 0); [|destruct (Qltb 0 b)]; simpl; auto).
Qed.

Lemma fold_fadd_neqv (l l' : list num) (acc acc' : num) :
  Forall2 neqv l l' -> neqv acc acc' -> neqv (fold_left fadd l acc) (fold_left fadd l' acc').
Proof.
  intro H. revert acc acc'. induction H as [|x x' l l' Hx Hl IH]; intros acc acc' Ha; simpl;
    [exact Ha|].
  apply IH. apply fadd_neqv; assumption.
Qed.

Lemma fdot_comm_neqv (a b : list num) : neqv (fdot a b) (fdot b a).
Proof.
  unfold fdot, fsum. apply fold_fadd_neqv; [|apply neqv_refl].
  revert b. induction a as [|x a IH]; intros [|y b]; simpl; constructor.
  - apply fmul_comm_neqv.
  - apply IH.
Qed.

Lemma corrcoef_sym (a b : list num) :
  length a = length b -> corr_eqv (corrcoef a b) (corrcoef b a).
Proof.
  intro Hlen. unfold corrcoef. rewrite Hlen.
  set (s := fdiv (Fin 1) (fsub (of_nat (length b)) (Fin 1))).
  assert (H01 : neqv (fmul (fdot (deviations a) (deviations b)) s)
                     (fmul (fdot (deviations b) (deviations a)) s))
    by (apply fmul_neqv; [apply fdot_comm_neqv|apply neqv_refl]).
  destruct (fmul (fdot (deviations a) (deviations b)) s) as [c| | |];
    destruct (fmul (fdot (deviations b) (deviations a)) s) as [c'| | |];
    simpl in H01; try contradiction;
    destruct (fmul (fdot (deviations a) (deviations a)) s) as [x| | |];
    destruct (fmul (fdot (deviations b) (deviations b)) s) as [y| | |];
    simpl; auto.
  rewrite andb_comm. destruct (Qltb 0 y && Qltb 0 x); simpl; auto.
  split; [exact H01|ring].
Qed.

Lemma valid_pairs_swap (xs ys : list num) :
  valid_pairs ys xs = map (fun p => (snd p, fst p)) (valid_pairs xs ys).
Proof.
  unfold valid_pairs. revert ys.
  induction xs as [|x xs IH]; intros [|y ys]; simpl; try reflexivity.
  destruct (is_nan x), (is_nan y); simpl; rewrite IH; reflexivity.
Qed.

Lemma corr_eqv_gt0 (c c' : corr_t) : corr_eqv c c' -> corr_gt0 c = corr_gt0 c'.
Proof.
  destruct c as [|x a b], c' as [|x' a' b']; simpl; try contradiction; [reflexivity|].
  intros [H _]. apply Qltb_compat. exact H.
Qed.

(** X9.  The interpretation (line 112) and the strategy choice (line 121)
    do not depend on the order of the two series given to [Series.corr]:
    correlating 'Intraday %' against 'Gap %' has a positive coefficient
    exactly when line 97's does. *)
Theorem interpretation_symmetric (xs ys : list num) :
  interpret (series_corr xs ys) = interpret (series_corr ys xs) /\
  (forall same_direction_pct,
     strategy_of (series_corr xs ys) same_direction_pct =
     strategy_of (series_corr ys xs) same_direction_pct).
Proof.
  assert (H : corr_eqv (series_corr xs ys) (series_corr ys xs)).
  { unfold series_corr. rewrite (valid_pairs_swap xs ys), length_map, !map_map. simpl.
    destruct (Nat.ltb (length (valid_pairs xs ys)) 1); [simpl; exact I|].
    apply corrcoef_sym. rewrite !length_map. reflexivity. }
  split.
  - unfold interpret. rewrite (corr_eqv_gt0 _ _ H). reflexivity.
  - intro p. unfold strategy_of. rewrite (corr_eqv_gt0 _ _ H). reflexivity.
Qed.

(** ** NaN gaps *)



(** ** The order of the earnings table *)

Lemma Permutation_filter' {A : Type} (f : A -> bool) (l l' : list A) :
  Permutation l l' -> Permutation (filter f l) (filter f l').
Proof.
  induction 1 as [|x l l' _ IH|x y l|l l' l'' _ IH1 _ IH2]; simpl.
  - constructor.
  - destruct (f x); [constructor|]; exact IH.
  - destruct (f x), (f y); try constructor; try reflexivity.
  - etransitivity; eassumption.
Qed.

Lemma observations_perm (hist : list bar) (eds eds' : list Z) :
  Permutation eds eds' -> Permutation (observations hist eds) (observations hist eds').
Proof.
  induction 1 as [|ed l l' _ IH|x y l|l l' l'' _ IH1 _ IH2].
  - constructor.
  - rewrite !observations_cons. destruct (process_event hist ed); [constructor|]; exact IH.
  - rewrite !observations_cons.
    destruct (process_event hist x), (process_event hist y); try constructor; reflexivity.
  - etransitivity; eassumption.
Qed.

Lemma combine_map_pair {A B C : Type} (f : A -> B) (g : A -> C) (l : list A) :
  combine (map f l) (map g l) = map (fun x => (f x, g x)) l.
Proof. induction l as [|x l IH]; simpl; [reflexivity|rewrite IH; reflexivity]. Qed.

Lemma same_direction_pct_perm (data data' : list observation) :
  Permutation data data' ->
  same_direction_pct (map o_gap data) (map o_intraday data) =
  same_direction_pct (map o_gap data') (map o_intraday data').
Proof.
  intro Hp. unfold same_direction_pct, non_zero_rows. rewrite !combine_map_pair.
  assert (Hnz : Permutation (filter (fun r => fneq (fst r) (Fin 0)) (map (fun o => (o_gap o, o_intraday o)) data))
                            (filter (fun r => fneq (fst r) (Fin 0)) (map (fun o => (o_gap o, o_intraday o)) data')))
    by (apply Permutation_filter', Permutation_map; exact Hp).
  set (nz := filter _ (map _ data)) in *. set (nz' := filter _ (map _ data')) in *.
  clearbody nz nz'.
  destruct nz as [|r rs], nz' as [|r' rs'].
  - reflexivity.
  - apply Permutation_nil in Hnz. discriminate.
  - symmetry in Hnz. apply Permutation_nil in Hnz. discriminate.
  - unfold bool_mean.
    rewrite (Permutation_length (Permutation_filter' (fun b => b) _ _
               (Permutation_map same_sign Hnz))).
    rewrite (Permutation_length (Permutation_map same_sign Hnz)).
    reflexivity.
Qed.

Lemma nil_perm {A : Type} (l l' : list A) : Permutation l l' -> (l = [] <-> l' = []).
Proof.
  intro H. split; intro E; subst.
  - apply Permutation_nil. exact H.
  - symmetry in H. apply Permutation_nil. exact H.
Qed.

(** X12.  Reordering the rows of the earnings table gives the same error,
    or a result whose [df] holds the same rows (in the new order) and whose
    same-direction percentage is the same. *)
Theorem analyze_earnings_order (earnings earnings' : list earnings_row) (hist : list bar)
  (Hp : Permutation earnings earnings') :
  match analyze earnings hist, analyze earnings' hist with
  | inl e, inl e' => e = e'
  | inr r, inr r' => Permutation (r_obs r) (r_obs r') /\ r_same r = r_same r'
  | _, _ => False
  end.
Proof.
  rewrite !analyze_eq.
  assert (HF := Permutation_filter' has_eps _ _ Hp).
  assert (HO := observations_perm hist _ _ (Permutation_map e_date HF)).
  set (F := filter has_eps earnings) in *. set (F' := filter has_eps earnings') in *.
  set (O := observations hist (map e_date F)) in *.
  set (O' := observations hist (map e_date F')) in *.
  clearbody F F' O O'.
  destruct earnings as [|e es], earnings' as [|e' es'];
    [reflexivity
    |apply Permutation_nil in Hp; discriminate
    |symmetry in Hp; apply Permutation_nil in Hp; discriminate|].
  destruct F as [|f fs], F' as [|f' fs'];
    [reflexivity
    |apply Permutation_nil in HF; discriminate
    |symmetry in HF; apply Permutation_nil in HF; discriminate|].
  destruct hist as [|b bs]; [reflexivity|].
  destruct O as [|o os], O' as [|o' os'];
    [reflexivity
    |apply Permutation_nil in HO; discriminate
    |symmetry in HO; apply Permutation_nil in HO; discriminate|].
  cbv zeta. split; [exact HO|]. cbn [r_same].
  apply (same_direction_pct_perm (o :: os) (o' :: os')). exact HO.
Qed.

(** ** Instances of the further properties *)

Lemma missing_eps_row_ignored_witness :
  [reported jan1] ++ [] <> [] /\ e_eps (mkEarnings jan2 None) = None /\
  analyze ([reported jan1] ++ mkEarnings jan2 None :: []) example_bars =
  analyze ([reported jan1] ++ []) example_bars.
Proof.
  split; [discriminate|]. split; [reflexivity|].
  apply missing_eps_row_ignored; [discriminate|reflexivity].
Defined.

Lemma observation_dates_bracket_witness :
  let o := mkObs 19723 19723 19724 (Fin (98 # 100)) (Fin (-194 # 100)) in
  In o (observations example_bars [jan1]) /\
  exists ed pre_date next_date,
    In ed [jan1] /\ In pre_date (index example_bars) /\ In next_date (index example_bars) /\
    (pre_date <= ed < next_date)%Z /\
    o_earnings o = date_of ed /\ o_pre o = date_of pre_date /\ o_post o = date_of next_date /\
    (o_pre o <= o_earnings o <= o_post o)%Z.
Proof.
  intro o.
  assert (Ho : In o (observations example_bars [jan1])) by (vm_compute; left; reflexivity).
  split; [exact Ho|]. apply observation_dates_bracket. exact Ho.
Defined.

Lemma buy_at_open_requires_witness :
  exists r,
    analyze [reported jan1; reported jan2] trend_bars = inr r /\
    strategy_of (r_corr r) (r_same r) = BuyAtOpen /\
    let nz := non_zero_rows (map o_gap (r_obs r)) (map o_intraday (r_obs r)) in
    interpret (r_corr r) = PositiveDrift /\
    (2 <= length (r_obs r))%nat /\
    nz <> [] /\ (length nz < 2 * length (filter same_sign nz))%nat.
Proof.
  destruct (analyze [reported jan1; reported jan2] trend_bars) as [f|r] eqn:E.
  - exfalso. vm_compute in E. discriminate.
  - assert (Hb : strategy_of (r_corr r) (r_same r) = BuyAtOpen).
    { vm_compute in E. injection E as <-. vm_compute. reflexivity. }
    exists r. split; [reflexivity|]. split; [exact Hb|].
    exact (buy_at_open_requires _ _ r E Hb).
Defined.


Lemma analyze_earnings_order_witness :
  Permutation [reported jan1; reported jan2] [reported jan2; reported jan1] /\
  match analyze [reported jan1; reported jan2] trend_bars,
        analyze [reported jan2; reported jan1] trend_bars with
  | inl e, inl e' => e = e'
  | inr r, inr r' => Permutation (r_obs r) (r_obs r') /\ r_same r = r_same r'
  | _, _ => False
  end.
Proof.
  split; [apply perm_swap|]. apply analyze_earnings_order. apply perm_swap.
Defined.
